(** * config-finder: layered configuration lookup

    A shallow embedding of [config-finder/__init__.py]: the recursive
    dictionary update, the search over configuration directories, the
    flattening of the INI parser state and the layered loader
    [ConfigFinder.__call__], with the properties of each. *)

From Stdlib Require Import ZArith Ascii String.
From stdpp Require Import gmap strings list fin_maps.

Set Warnings "-register-all,-clear-no-such-hyp".
Local Open Scope string_scope.

(** ** Python values and exceptions *)

(** What [yaml.load] can hand back: scalars, sequences and mappings.
    Mapping keys are strings, as in the configuration files read here. *)
Inductive scalar :=
  | SNone
  | SBool (b : bool)
  | SInt (z : Z)
  | SStr (s : string).

Inductive value :=
  | VScalar (s : scalar)
  | VSeq (l : list value)
  | VMap (m : gmap string value).

(** The exceptions that can leave the module. [IOError], [YAMLError] and
    [ParsingError] come from the file system and the two parsers. *)
Inductive exn :=
  | AttributeError
  | TypeError
  | IOError
  | YAMLError
  | ParsingError.

Inductive result (A : Type) :=
  | Ok (a : A)
  | Raise (e : exn).
Arguments Ok {A} a.
Arguments Raise {A} e.

Definition bind {A B} (r : result A) (f : A → result B) : result B :=
  match r with
  | Ok a => f a
  | Raise e => Raise e
  end.

Notation "x ←! r ; k" := (bind r (λ x, k))
  (at level 20, r at level 100, k at level 200, right associativity,
   format "x  ←!  r ;  '/' k").

(** The value a call returned, forgetting which exception it raised. *)
Definition returned {A} (r : result A) : option A :=
  match r with
  | Ok a => Some a
  | Raise _ => None
  end.

Definition raises {A} (r : result A) : Prop := returned r = None.

(** ** The dictionary primitives used by the module *)

(** [isinstance(v, Mapping)] *)
Definition isinstance_Mapping (v : value) : bool :=
  match v with
  | VMap _ => true
  | _ => false
  end.

(** [d.get(k, dflt)]: only a mapping has a [get] method. *)
Definition py_get (d : value) (k : string) (dflt : value) : result value :=
  match d with
  | VMap m => Ok (default dflt (m !! k))
  | _ => Raise AttributeError
  end.

(** [d[k] = x] with a string key: item assignment is refused by every
    scalar, and by a sequence because the index is not an integer. The
    dictionary is updated in place; the updated object is threaded on. *)
Definition py_setitem (d : value) (k : string) (x : value) : result value :=
  match d with
  | VMap m => Ok (VMap (<[k := x]> m))
  | _ => Raise TypeError
  end.

(** ** [recursive_dict_update]

    [for k, v in u.items()] is a fold over the entries of [u]; [u.items()]
    itself fails on anything that is not a mapping. The loop never stores a
    mapping object of [u] in [d] (a mapping value always goes through the
    recursive call, which returns [d]'s own entry or a fresh dictionary), so
    passing values instead of references loses nothing. *)
Fixpoint recursive_dict_update (d u : value) {struct u} : result value :=
  match u with
  | VMap um =>
      map_fold (λ k v (acc : result value),
        d ←! acc;
        if isinstance_Mapping v then
          g ←! py_get d k (VMap ∅);
          r ←! recursive_dict_update g v;
          py_setitem d k r
        else
          py_setitem d k v) (Ok d) um
  | _ => Raise AttributeError
  end.

(** ** Paths: [os.path.join], [os.path.splitext] (POSIX) *)

Definition startswith_sep (s : string) : bool :=
  match s with
  | String c _ => Ascii.eqb c "/"
  | EmptyString => false
  end.

Fixpoint endswith_sep (s : string) : bool :=
  match s with
  | EmptyString => false
  | String c EmptyString => Ascii.eqb c "/"
  | String _ s' => endswith_sep s'
  end.

(** [posixpath.join(a, b)] *)
Definition path_join (a b : string) : string :=
  if startswith_sep b then b
  else if String.eqb a "" || endswith_sep a then a +:+ b
  else a +:+ "/" +:+ b.

(** [p.rfind(c)]: the index of the last occurrence, or [-1]. *)
Fixpoint rfind_from (c : ascii) (p : string) (i acc : Z) : Z :=
  match p with
  | EmptyString => acc
  | String a p' => rfind_from c p' (i + 1) (if Ascii.eqb a c then i else acc)
  end.

Definition rfind (c : ascii) (p : string) : Z := rfind_from c p 0 (-1).

(** The loop of [genericpath._splitext] that skips the leading dots of the
    last component; [n] counts the iterations left,
    [dotIndex - filenameIndex]. *)
Fixpoint skip_leading_dots (p : string) (dotIndex filenameIndex : Z) (n : nat)
  : string * string :=
  match n with
  | O => (p, "")
  | S n' =>
      match String.get (Z.to_nat filenameIndex) p with
      | Some c =>
          if negb (Ascii.eqb c ".") then
            (String.substring 0 (Z.to_nat dotIndex) p,
             String.substring (Z.to_nat dotIndex)
               (String.length p - Z.to_nat dotIndex) p)
          else skip_leading_dots p dotIndex (filenameIndex + 1) n'
      | None => (p, "")
      end
  end.

(** [os.path.splitext(p)] *)
Definition splitext (p : string) : string * string :=
  let sepIndex := rfind "/" p in
  let dotIndex := rfind "." p in
  if (sepIndex <? dotIndex)%Z then
    let filenameIndex := (sepIndex + 1)%Z in
    skip_leading_dots p dotIndex filenameIndex
      (Z.to_nat (dotIndex - filenameIndex))
  else (p, "").

(** ** The world outside the module

    The file system and the two parsers are collaborators of the module:
    [isfile] is [os.path.isfile], [yaml_load p] is [open(p)] followed by
    [yaml.load] and [ini_parse p] is what [ConfigParser] reads from [p], as
    the section headers of the file in order, each with its options in
    order (option names already passed through [optionxform]). A file
    [ConfigParser.read] cannot open is skipped by it, which is [Ok []].
    [name_key] says whether the parser records the section name under
    ['__name__'] in every section it creates (the Python 2 parser does). *)
Definition ini_file : Type := list (string * list (string * string)).

Record world := {
  isfile : string → bool;
  yaml_load : string → result value;
  ini_parse : string → result ini_file;
  name_key : bool
}.

(** ** [config_search_paths] *)

(** [search_dirs] may hold [None]; [kwargs] holds [check_exists] when the
    caller passed it. *)
Definition config_search_paths (w : world) (filename : string)
    (search_dirs : list (option string)) (kwargs : option bool) : list string :=
  let paths : list string := [] in
  let paths := (paths ++
    flat_map (λ search_dir : option string,
      match search_dir with
      | Some dir => [path_join dir filename]
      | None => []
      end) search_dirs)%list in
  let paths :=
    if default true kwargs then List.filter (isfile w) paths else paths in
  paths.

(** ** [MyParser] *)

(** The state of a [ConfigParser]: the options of the default section and
    the options of every other section. Values are kept as the strings
    that were read. *)
Record MyParser := {
  _defaults : gmap string string;
  _sections : gmap string (gmap string string)
}.

(** [MyParser()] *)
Definition MyParser_new : MyParser :=
  {| _defaults := ∅; _sections := ∅ |}.

Definition DEFAULTSECT : string := "DEFAULT".

(** Modelled from the spec: [ConfigParser.read], which is library code. Each
    file is parsed into the same accumulating parser state: a later value
    for an existing section and key overrides the earlier one, new sections
    and keys are added, and the options under the default header go to the
    defaults. A header selects the dictionary its options are written to:
    the section of that name when there is one, the defaults for the default
    header, a new section otherwise. *)
Definition read_header (w : world) (cfg : MyParser) (sectname : string)
  : MyParser :=
  if decide (is_Some (_sections cfg !! sectname)) then cfg
  else if String.eqb sectname DEFAULTSECT then cfg
  else
    let cursect : gmap string string :=
      if name_key w then {["__name__" := sectname]} else ∅ in
    {| _defaults := _defaults cfg;
       _sections := <[sectname := cursect]> (_sections cfg) |}.

(** Modelled from the spec: the option line [optname = optval] of
    [ConfigParser.read], [cursect[optname] = optval]. *)
Definition read_option (sectname : string) (cfg : MyParser)
    (opt : string * string) : MyParser :=
  if decide (is_Some (_sections cfg !! sectname)) then
    {| _defaults := _defaults cfg;
       _sections := alter (insert opt.1 opt.2) sectname (_sections cfg) |}
  else
    {| _defaults := <[opt.1 := opt.2]> (_defaults cfg);
       _sections := _sections cfg |}.

Definition read_section (w : world) (cfg : MyParser)
    (sect : string * list (string * string)) : MyParser :=
  foldl (read_option sect.1) (read_header w cfg sect.1) sect.2.

(** [cfg.read(config_file)] *)
Definition MyParser_read (w : world) (cfg : MyParser) (config_file : string)
  : result MyParser :=
  f ←! ini_parse w config_file;
  Ok (foldl (read_section w) cfg f).

(** [MyParser.as_dict]: [dict(self._defaults, **d__[key])] is the section
    laid over the defaults, and [pop('__name__', None)] removes that key
    when it is there. *)
Definition as_dict (self : MyParser) : gmap string (gmap string string) :=
  let d__ := _sections self in
  map_fold (λ key _ (d__ : gmap string (gmap string string)),
    alter (λ sect, delete "__name__" (sect ∪ _defaults self)) key d__)
    d__ d__.

(** The dictionary of dictionaries of strings [as_dict] returns, as a
    Python value. *)
Definition ini_value (d : gmap string (gmap string string)) : value :=
  VMap ((λ sect : gmap string string,
           VMap ((λ s, VScalar (SStr s)) <$> sect)) <$> d).

(** ** [ConfigFinder] *)

Record ConfigFinder := { paths : list (option string) }.

(** A [for] loop whose body may raise. *)
Fixpoint for_each {A S} (body : S → A → result S) (s : S) (l : list A)
  : result S :=
  match l with
  | [] => Ok s
  | x :: l' => s' ←! body s x; for_each body s' l'
  end.

(** The two loops of [__call__]. *)
Definition read_all (w : world) (config_files : list string)
  : result MyParser :=
  for_each (MyParser_read w) MyParser_new config_files.

Definition merge_all (w : world) (config_files : list string) (cfg : value)
  : result value :=
  for_each (λ cfg config_file,
    u ←! yaml_load w config_file;
    recursive_dict_update cfg u) cfg config_files.

(** [ConfigFinder.__call__]; falling off the end of the function returns
    [None]. *)
Definition ConfigFinder_call (w : world) (self : ConfigFinder)
    (filename : string) : result (option value) :=
  let config_files :=
    config_search_paths w filename (paths self) (Some true) in
  let ext := (splitext filename).2 in
  if bool_decide (ext ∈ [".cfg"; ".ini"]) then
    cfg ←! read_all w config_files;
    Ok (Some (ini_value (as_dict cfg)))
  else if bool_decide (ext ∈ [".yaml"; ".yml"]) then
    cfg ←! merge_all w config_files (VMap ∅);
    Ok (Some cfg)
  else Ok None.

(** ** The dictionaries of the test suite *)

Definition VInt (z : Z) : value := VScalar (SInt z).
Definition VStr (s : string) : value := VScalar (SStr s).

Definition dict1 : value :=
  VMap {[ "a" := VInt 1; "b" := VMap {[ "c" := VInt 3; "d" := VInt 4 ]} ]}.
Definition dict2 : value :=
  VMap {[ "a" := VInt 2; "b" := VMap {[ "d" := VInt 5 ]} ]}.
Definition dict_merged : value :=
  VMap {[ "a" := VInt 2; "b" := VMap {[ "c" := VInt 3; "d" := VInt 5 ]} ]}.

(** ** The loop, entry by entry *)

(** The body of the loop of [recursive_dict_update] at the entry
    [(k, v)] of the overlay. *)
Definition loop_body (k : string) (v : value) (acc : result value)
  : result value :=
  d ←! acc;
  if isinstance_Mapping v then
    g ←! py_get d k (VMap ∅);
    r ←! recursive_dict_update g v;
    py_setitem d k r
  else
    py_setitem d k v.

(** What the loop does to the entry of the base under one key: [dv] is
    the entry of the base and [uv] the entry of the overlay, when there
    is one. *)
Definition slot (dv uv : option value) : result (option value) :=
  match uv with
  | None => Ok dv
  | Some v =>
      if isinstance_Mapping v then
        r ←! recursive_dict_update (default (VMap ∅) dv) v; Ok (Some r)
      else Ok (Some v)
  end.

(** What the loop has done to the dictionary [dm] after the entries [m]
    of the overlay. *)
Definition loop_inv (dm : gmap string value) (acc : result value)
    (m : gmap string value) : Prop :=
  match acc with
  | Ok r => ∃ rm, r = VMap rm ∧ ∀ k, slot (dm !! k) (m !! k) = Ok (rm !! k)
  | Raise _ => ∃ k, raises (slot (dm !! k) (m !! k))
  end.

(** The nesting below a value, to reason by induction through mappings. *)
Fixpoint value_size (v : value) : nat :=
  match v with
  | VMap m => S (map_fold (λ _ x n, value_size x + n) 0 m)
  | _ => 0
  end.

(** ** Candidate paths *)

(** Every directory of the search path that is not [None], joined with the
    file name. *)
Definition candidates (filename : string) (search_dirs : list (option string))
  : list string :=
  (λ dir, path_join dir filename) <$> omap id search_dirs.

(** ** What the parser has read *)

(** The section headers and the assignments [(section, option, value)] of
    what was read, in reading order. *)
Definition section_names (f : ini_file) : list string := f.*1.

Definition assignments (f : ini_file) : list (string * string * string) :=
  flat_map (λ sect : string * list (string * string),
    (λ opt : string * string, (sect.1, opt.1, opt.2)) <$> sect.2) f.

(** The value of the last assignment to [key] under the header [sectname]. *)
Definition last_assignment (sectname key : string)
    (asg : list (string * string * string)) : option string :=
  last (omap (λ a : string * string * string,
    if decide (a.1.1 = sectname ∧ a.1.2 = key) then Some a.2 else None) asg).

(** The parser state after reading the headers [names] with the
    assignments [asg]. *)
Definition parser_inv (cfg : MyParser) (names : list string)
    (asg : list (string * string * string)) : Prop :=
  (∀ s, is_Some (_sections cfg !! s) ↔ s ∈ names ∧ s ≠ DEFAULTSECT) ∧
  (∀ a, a ∈ asg → a.1.1 ∈ names) ∧
  (∀ s sect k, _sections cfg !! s = Some sect → k ≠ "__name__" →
     sect !! k = last_assignment s k asg) ∧
  (∀ k, _defaults cfg !! k = last_assignment DEFAULTSECT k asg).

(** ** Sample worlds *)

(** A world with the given YAML and INI files and nothing else. *)
Fixpoint assoc {A} (p : string) (l : list (string * A)) : option A :=
  match l with
  | [] => None
  | (q, a) :: l' => if String.eqb p q then Some a else assoc p l'
  end.

Definition world_of (yamls : list (string * value))
    (inis : list (string * ini_file)) (nk : bool) : world :=
  {| isfile := λ p, bool_decide (is_Some (assoc p yamls))
                    || bool_decide (is_Some (assoc p inis));
     yaml_load := λ p, from_option Ok (Raise IOError) (assoc p yamls);
     ini_parse := λ p, Ok (default [] (assoc p inis));
     name_key := nk |}.

Definition tmp_and_cwd : ConfigFinder := {| paths := [Some "/tmp"; Some "."] |}.

Definition world_two_yaml : world :=
  world_of [("/tmp/conf.yaml", dict1); ("./conf.yaml", dict2)] [] false.



Definition world_no_files : world := world_of [] [] false.

(** Two YAML files without nested mappings. *)
Definition flat_tmp : gmap string value := {[ "a" := VInt 1; "b" := VInt 2 ]}.
Definition flat_cwd : gmap string value := {[ "b" := VInt 3 ]}.

Definition world_flat_yaml : world :=
  world_of [("/tmp/conf.yaml", VMap flat_tmp); ("./conf.yaml", VMap flat_cwd)]
    [] false.

(** A YAML file whose document is a sequence. *)
Definition world_seq_yaml : world :=
  world_of [("/tmp/conf.yaml", VSeq [VInt 1])] [] false.

(** Files in [/tmp] that the parsers reject. *)
Definition world_broken : world :=
  {| isfile := λ p, String.eqb p "/tmp/conf.yaml"
                    || String.eqb p "/tmp/conf.ini";
     yaml_load := λ _, Raise YAMLError;
     ini_parse := λ _, Raise ParsingError;
     name_key := false |}.

(** A parser state as the Python 2 parser leaves it. *)
Definition sample_parser : MyParser :=
  {| _defaults := {[ "z" := "0"; "c" := "1" ]};
     _sections := {[ "b" := {[ "__name__" := "b"; "c" := "3" ]} ]} |}.

Definition ini_test_tmp : ini_file :=
  [("a", [("e", "7")]); ("b", [("c", "3"); ("d", "4")])].

Definition world_test_ini (nk : bool) : world :=
  world_of [] [("/tmp/conf.ini", ini_test_tmp); ("./conf.ini", [("b", [("d", "5")])])]
    nk.

Definition ini_test_merged : value :=
  VMap {[ "a" := VMap {[ "e" := VStr "7" ]};
          "b" := VMap {[ "c" := VStr "3"; "d" := VStr "5" ]} ]}.

Definition ini_tmp : ini_file :=
  [("DEFAULT", [("z", "0"); ("d", "1")]);
   ("a", [("e", "7")]);
   ("b", [("c", "3"); ("d", "4")])].
Definition ini_cwd : ini_file := [("b", [("d", "5")])].

Definition world_two_ini (nk : bool) : world :=
  world_of [] [("/tmp/conf.ini", ini_tmp); ("./conf.ini", ini_cwd)] nk.

Definition ini_merged : value :=
  VMap {[ "a" := VMap {[ "e" := VStr "7"; "z" := VStr "0"; "d" := VStr "1" ]};
          "b" := VMap {[ "c" := VStr "3"; "d" := VStr "5"; "z" := VStr "0" ]} ]}.


(** * Properties *)

(** ** Paths *)

Example splitext_yaml : splitext "conf.yaml" = ("conf", ".yaml").
Proof. reflexivity. Qed.
Example splitext_hidden : splitext "/etc/.yaml" = ("/etc/.yaml", "").
Proof. reflexivity. Qed.
Example splitext_dir_dot : splitext "a.d/conf" = ("a.d/conf", "").
Proof. reflexivity. Qed.
Example splitext_two : splitext "..a.tar.gz" = ("..a.tar", ".gz").
Proof. reflexivity. Qed.
Example path_join_tmp : path_join "/tmp" "conf.cfg" = "/tmp/conf.cfg".
Proof. reflexivity. Qed.
Example path_join_slash : path_join "/tmp/" "conf.cfg" = "/tmp/conf.cfg".
Proof. reflexivity. Qed.
Example path_join_abs : path_join "/tmp" "/conf.cfg" = "/conf.cfg".
Proof. reflexivity. Qed.

Example splitext_upper : splitext "conf.YAML" = ("conf", ".YAML").
Proof. reflexivity. Qed.

(** Closes [ext ∈ [...]] for the extension of a given file name. *)
Ltac solve_ext :=
  vm_compute;
  repeat first [apply list_elem_of_here | apply list_elem_of_further].

(** ** The recursive update *)

Lemma rdu_unfold d um :
  recursive_dict_update d (VMap um) = map_fold loop_body (Ok d) um.
Proof. reflexivity. Qed.

Lemma rdu_not_mapping d u :
  isinstance_Mapping u = false → recursive_dict_update d u = Raise AttributeError.
Proof. by destruct u. Qed.

Lemma rdu_empty_overlay d : recursive_dict_update d (VMap ∅) = Ok d.
Proof. rewrite rdu_unfold. apply map_fold_empty. Qed.

(** What the loop has done to a dictionary after the entries [m]. *)
Lemma loop_inv_fold dm um : loop_inv dm (map_fold loop_body (Ok (VMap dm)) um) um.
Proof.
  apply (map_fold_weak_ind (loop_inv dm)).
  - exists dm. split; [done|]. intros k. by rewrite lookup_empty.
  - intros i x m acc Hi IH. destruct acc as [r|e]; simpl in *.
    + destruct IH as (rm & -> & Hrm).
      assert (rm !! i = dm !! i) as Hrmi.
      { specialize (Hrm i). rewrite Hi in Hrm. simpl in Hrm. congruence. }
      assert (∀ k, k ≠ i →
        slot (dm !! k) (<[i:=x]> m !! k) = Ok (rm !! k)) as Hne.
      { intros k Hk. rewrite lookup_insert_ne by done. apply Hrm. }
      destruct (isinstance_Mapping x) eqn:Hx; simpl.
      * rewrite Hrmi.
        destruct (recursive_dict_update (default (VMap ∅) (dm !! i)) x)
          as [r|e] eqn:Hr; simpl.
        -- exists (<[i:=r]> rm). split; [done|]. intros k.
           destruct (decide (k = i)) as [->|Hk].
           ++ rewrite !lookup_insert_eq. simpl. by rewrite Hx, Hr.
           ++ rewrite (lookup_insert_ne rm) by done. by apply Hne.
        -- exists i. rewrite lookup_insert_eq. unfold raises. simpl.
           by rewrite Hx, Hr.
      * exists (<[i:=x]> rm). split; [done|]. intros k.
        destruct (decide (k = i)) as [->|Hk].
        -- rewrite !lookup_insert_eq. simpl. by rewrite Hx.
        -- rewrite (lookup_insert_ne rm) by done. by apply Hne.
    + destruct IH as (k & Hk). exists k.
      destruct (decide (k = i)) as [->|Hki].
      * rewrite Hi in Hk. by destruct (dm !! i).
      * by rewrite lookup_insert_ne.
Qed.

Lemma rdu_Ok_slots dm um r :
  recursive_dict_update (VMap dm) (VMap um) = Ok r →
  ∃ rm, r = VMap rm ∧ ∀ k, slot (dm !! k) (um !! k) = Ok (rm !! k).
Proof.
  rewrite rdu_unfold. intros H. pose proof (loop_inv_fold dm um) as Hinv.
  by rewrite H in Hinv.
Qed.

Lemma rdu_Raise_slot dm um :
  raises (recursive_dict_update (VMap dm) (VMap um)) →
  ∃ k, raises (slot (dm !! k) (um !! k)).
Proof.
  rewrite rdu_unfold. intros H. pose proof (loop_inv_fold dm um) as Hinv.
  destruct (map_fold _ _ _); [done|]. exact Hinv.
Qed.

Lemma rdu_slots_Ok dm um rm :
  (∀ k, slot (dm !! k) (um !! k) = Ok (rm !! k)) →
  recursive_dict_update (VMap dm) (VMap um) = Ok (VMap rm).
Proof.
  intros Hs.
  destruct (recursive_dict_update (VMap dm) (VMap um)) as [r|e] eqn:Hr.
  - apply rdu_Ok_slots in Hr as (rm' & -> & Hrm'). do 2 f_equal.
    apply map_eq. intros k. specialize (Hs k). specialize (Hrm' k). congruence.
  - destruct (rdu_Raise_slot dm um) as (k & Hk); [by rewrite Hr|].
    rewrite Hs in Hk. done.
Qed.

(** A base that is not a mapping survives only an empty overlay. *)
Lemma rdu_scalar_base d um :
  isinstance_Mapping d = false → um ≠ ∅ →
  raises (recursive_dict_update d (VMap um)).
Proof.
  intros Hd Hum. rewrite rdu_unfold.
  cut (um = ∅ ∧ map_fold loop_body (Ok d) um = Ok d
       ∨ raises (map_fold loop_body (Ok d) um)); [by intros [[? _]|?]|].
  clear Hum.
  apply (map_fold_weak_ind (λ acc m, m = ∅ ∧ acc = Ok d ∨ raises acc));
    [by left|].
  intros i x m acc Hi [[-> ->]|IH]; right.
  - unfold loop_body, raises. simpl. destruct d; try done.
    all: by destruct (isinstance_Mapping x).
  - by destruct acc.
Qed.

Lemma value_size_lookup (m : gmap string value) k v :
  m !! k = Some v → value_size v < value_size (VMap m).
Proof.
  simpl. revert k v.
  apply (map_fold_weak_ind
    (λ n (m : gmap string value), ∀ k v, m !! k = Some v → value_size v < S n)).
  - intros k v. by rewrite lookup_empty.
  - intros i x m' n Hi IH k v.
    destruct (decide (k = i)) as [->|Hk].
    + rewrite lookup_insert_eq. intros [= ->]. lia.
    + rewrite lookup_insert_ne by done. intros Hv%IH. lia.
Qed.

(** Induction on a value through the entries of its mappings. *)
Lemma value_map_ind (P : value → Prop) :
  (∀ v, isinstance_Mapping v = false → P v) →
  (∀ m : gmap string value, (∀ k v, m !! k = Some v → P v) → P (VMap m)) →
  ∀ v, P v.
Proof.
  intros Hs Hm v.
  remember (value_size v) as n eqn:Hn. revert v Hn.
  induction n as [n IH] using lt_wf_ind. intros v ->.
  destruct v as [s|l|m]; [by apply Hs..|].
  apply Hm. intros k v Hv. eapply IH; [|done].
  by eapply value_size_lookup.
Qed.

(** Merging into a fresh dictionary copies the overlay. *)
Lemma rdu_empty_base u :
  isinstance_Mapping u = true → recursive_dict_update (VMap ∅) u = Ok u.
Proof.
  induction u as [v Hv|m IH] using value_map_ind; [congruence|].
  intros _. apply rdu_slots_Ok. intros k. rewrite lookup_empty.
  destruct (m !! k) as [v|] eqn:Hk; simpl; [|done].
  destruct (isinstance_Mapping v) eqn:Hv; [|done].
  by rewrite (IH k v Hk Hv).
Qed.

(** A successful update returns a mapping exactly when the base is one;
    what is not a mapping comes back as it is. *)
Lemma rdu_Ok_kind d u r :
  recursive_dict_update d u = Ok r →
  isinstance_Mapping r = isinstance_Mapping d ∧
  (isinstance_Mapping d = false → r = d ∧ u = VMap ∅).
Proof.
  intros Hr. destruct u as [s|l|um]; [done..|].
  destruct (isinstance_Mapping d) eqn:Hd.
  - destruct d as [| |dm]; [done..|].
    apply rdu_Ok_slots in Hr as (rm & -> & _). done.
  - destruct (decide (um = ∅)) as [->|Hum].
    + rewrite rdu_empty_overlay in Hr. injection Hr as <-. by rewrite Hd.
    + pose proof (rdu_scalar_base d um Hd Hum) as Hx.
      rewrite Hr in Hx. done.
Qed.

(** Updating with two overlays in turn, against updating with the second
    laid over the first: first for one entry of the three dictionaries,
    given the property for the overlay value below it. *)
Section assoc.
Variable o2 : option value.
Hypothesis IH : ∀ v2, o2 = Some v2 → ∀ b o1 r,
  recursive_dict_update b o1 = Ok r →
  returned (recursive_dict_update r v2) =
  returned (o ←! recursive_dict_update o1 v2; recursive_dict_update b o).

End assoc.




Lemma rdu_dict1_dict2 : recursive_dict_update dict1 dict2 = Ok dict_merged.
Proof. vm_compute. reflexivity. Qed.



(** C2: [recursive_dict_update] of the base
    [{'a': 1, 'b': {'c': 3, 'd': 4}}] with the overlay
    [{'a': 2, 'b': {'d': 5}}] returns exactly
    [{'a': 2, 'b': {'c': 3, 'd': 5}}]: the mapping under ['b'], present in
    both, is merged key by key (it keeps ['c'] of the base and takes ['d']
    of the overlay) and is not replaced. *)
Theorem C2_test_recursive_dict_update :
  recursive_dict_update dict1 dict2 = Ok dict_merged ∧
  ∃ m b, dict_merged = VMap m ∧ m !! "b" = Some (VMap b) ∧
    b !! "c" = Some (VInt 3) ∧ b !! "d" = Some (VInt 5).
Proof.
  split; [apply rdu_dict1_dict2|].
  eexists _, _. split; [reflexivity|]. by vm_compute.
Qed.









(** ** The search over the directories *)

Lemma flat_map_candidates filename search_dirs :
  flat_map (λ search_dir : option string,
    match search_dir with
    | Some dir => [path_join dir filename]
    | None => []
    end) search_dirs = candidates filename search_dirs.
Proof.
  unfold candidates. induction search_dirs as [|[dir|] l IH]; simpl; [done| |done].
  by rewrite IH.
Qed.

Lemma config_search_paths_unchecked w filename search_dirs :
  config_search_paths w filename search_dirs (Some false)
  = candidates filename search_dirs.
Proof. unfold config_search_paths. simpl. apply flat_map_candidates. Qed.

Lemma config_search_paths_checked w filename search_dirs :
  config_search_paths w filename search_dirs (Some true)
  = List.filter (isfile w) (candidates filename search_dirs).
Proof. unfold config_search_paths. simpl. by rewrite flat_map_candidates. Qed.

Lemma filter_sublist_of {A} (f : A → bool) (l : list A) :
  sublist (List.filter f l) l.
Proof.
  induction l as [|x l IH]; simpl; [constructor|].
  destruct (f x); by constructor.
Qed.

(** C5: [config_search_paths] joins every directory that is not [None]
    with the file name, in the order given. With [check_exists=False] it
    returns all of these candidates, whatever the file system holds (so
    ['/tmp'] and ['.'] with ['conf.cfg'] give ['/tmp/conf.cfg'] and
    ['./conf.cfg']); with [check_exists=True] it returns exactly the
    candidates that are regular files, in the same relative order. It
    returns a list in every case: a directory that is missing is no error. *)
Theorem C5_config_search_paths w filename search_dirs :
  config_search_paths w filename search_dirs (Some false)
    = candidates filename search_dirs ∧
  config_search_paths w filename search_dirs (Some true)
    = List.filter (isfile w) (candidates filename search_dirs) ∧
  sublist (config_search_paths w filename search_dirs (Some true))
    (candidates filename search_dirs) ∧
  (∀ p, p ∈ config_search_paths w filename search_dirs (Some true) ↔
        p ∈ candidates filename search_dirs ∧ isfile w p = true) ∧
  config_search_paths w "conf.cfg" [Some "/tmp"; Some "."] (Some false)
    = ["/tmp/conf.cfg"; "./conf.cfg"].
Proof.
  rewrite config_search_paths_unchecked, config_search_paths_checked.
  split_and!; [done|done|apply filter_sublist_of| |done].
  intros p. rewrite !list_elem_of_In. apply filter_In.
Qed.

(** ** The loader *)

Lemma for_each_app {A S} (body : S → A → result S) s l1 l2 :
  for_each body s (l1 ++ l2) = (s' ←! for_each body s l1; for_each body s' l2).
Proof.
  revert s. induction l1 as [|x l1 IH]; intros s; simpl; [done|].
  destruct (body s x); simpl; [apply IH|done].
Qed.

Lemma yaml_not_ini ext : ext ∈ [".yaml"; ".yml"] → ext ∉ [".cfg"; ".ini"].
Proof.
  intros H Hn. repeat (apply elem_of_cons in H as [->|H]);
    [..|by apply elem_of_nil in H];
    by repeat (apply elem_of_cons in Hn as [?|Hn]; [done|]);
       apply elem_of_nil in Hn.
Qed.

Lemma call_ini w self filename :
  (splitext filename).2 ∈ [".cfg"; ".ini"] →
  ConfigFinder_call w self filename =
  (cfg ←! read_all w (config_search_paths w filename (paths self) (Some true));
   Ok (Some (ini_value (as_dict cfg)))).
Proof. intros H. unfold ConfigFinder_call. by rewrite bool_decide_eq_true_2. Qed.

Lemma call_yaml w self filename :
  (splitext filename).2 ∈ [".yaml"; ".yml"] →
  ConfigFinder_call w self filename =
  (cfg ←! merge_all w (config_search_paths w filename (paths self) (Some true))
            (VMap ∅);
   Ok (Some cfg)).
Proof.
  intros H. unfold ConfigFinder_call.
  rewrite bool_decide_eq_false_2 by by apply yaml_not_ini.
  by rewrite bool_decide_eq_true_2.
Qed.

(** C1: when the search finds two YAML files for the file name, the one
    of the earlier directory holding [{'a': 1, 'b': {'c': 3, 'd': 4}}] and
    the one of the later directory [{'a': 2, 'b': {'d': 5}}], the loader
    returns [{'a': 2, 'b': {'c': 3, 'd': 5}}]: the later layer wins key by
    key at every depth and ['c'], which it does not mention, is kept. *)
Theorem C1_two_yaml_layers w self filename p1 p2 :
  (splitext filename).2 ∈ [".yaml"; ".yml"] →
  config_search_paths w filename (paths self) (Some true) = [p1; p2] →
  yaml_load w p1 = Ok dict1 →
  yaml_load w p2 = Ok dict2 →
  ConfigFinder_call w self filename = Ok (Some dict_merged).
Proof.
  intros Hext Hfiles H1 H2. rewrite call_yaml, Hfiles by done.
  unfold merge_all. cbn [for_each bind]. rewrite H1. cbn [bind].
  rewrite rdu_empty_base by done. cbn [bind]. rewrite H2. cbn [bind].
  by rewrite rdu_dict1_dict2.
Qed.

Lemma C1_witness :
  ConfigFinder_call world_two_yaml tmp_and_cwd "conf.yaml"
  = Ok (Some dict_merged).
Proof.
  apply (C1_two_yaml_layers world_two_yaml tmp_and_cwd "conf.yaml"
           "/tmp/conf.yaml" "./conf.yaml").
  - solve_ext.
  - reflexivity.
  - reflexivity.
  - reflexivity.
Defined.

Lemma merge_all_app w l1 l2 cfg :
  merge_all w (l1 ++ l2) cfg =
  (cfg' ←! merge_all w l1 cfg; merge_all w l2 cfg').
Proof. apply for_each_app. Qed.

Lemma merge_all_cons w p l cfg :
  merge_all w (p :: l) cfg =
  (u ←! yaml_load w p; cfg' ←! recursive_dict_update cfg u; merge_all w l cfg').
Proof. unfold merge_all. simpl. by destruct (yaml_load w p). Qed.





(** C7: for a file name with one of the four recognized extensions that
    is found in no directory of the search path, the loader returns an
    empty configuration, [{}], and does not raise. *)
Theorem C7_no_candidates w self filename :
  (splitext filename).2 ∈ [".cfg"; ".ini"; ".yaml"; ".yml"] →
  config_search_paths w filename (paths self) (Some true) = [] →
  ConfigFinder_call w self filename = Ok (Some (VMap ∅)).
Proof.
  intros Hext Hfiles.
  assert ((splitext filename).2 ∈ [".cfg"; ".ini"] ∨
          (splitext filename).2 ∈ [".yaml"; ".yml"]) as [H|H].
  { rewrite !elem_of_cons in Hext. rewrite !elem_of_cons. tauto. }
  - rewrite call_ini, Hfiles by done. unfold read_all. cbn [for_each bind].
    unfold as_dict, ini_value. cbn [_sections MyParser_new].
    by rewrite map_fold_empty, fmap_empty.
  - by rewrite call_yaml, Hfiles.
Qed.

Lemma C7_witness :
  ConfigFinder_call world_no_files tmp_and_cwd "conf.ini" = Ok (Some (VMap ∅)).
Proof.
  apply C7_no_candidates.
  - solve_ext.
  - reflexivity.
Defined.

(** C8: for a file name whose extension is none of [.cfg], [.ini],
    [.yaml] and [.yml], compared as they are written, the loader returns
    [None] and does not raise, whatever the file system holds. *)
Theorem C8_unrecognized_extension w self filename :
  (splitext filename).2 ∉ [".cfg"; ".ini"; ".yaml"; ".yml"] →
  ConfigFinder_call w self filename = Ok None.
Proof.
  intros Hext. unfold ConfigFinder_call.
  rewrite !bool_decide_eq_false_2; [done|..];
    intros H; apply Hext; rewrite !elem_of_cons in H; rewrite !elem_of_cons;
    tauto.
Qed.

Lemma C8_witness :
  ConfigFinder_call world_two_yaml tmp_and_cwd "conf.YAML" = Ok None.
Proof.
  apply C8_unrecognized_extension. vm_compute.
  intros H. repeat (apply elem_of_cons in H as [H|H]; [discriminate H|]).
  by apply elem_of_nil in H.
Defined.

(** ** The INI layers *)

Lemma last_assignment_snoc s k asg a :
  last_assignment s k (asg ++ [a]) =
  if decide (a.1.1 = s ∧ a.1.2 = k) then Some a.2 else last_assignment s k asg.
Proof.
  unfold last_assignment. rewrite omap_app. simpl.
  case_decide; simpl; [by rewrite last_snoc|by rewrite app_nil_r].
Qed.

Lemma last_assignment_none s k asg :
  (∀ a, a ∈ asg → a.1.1 ≠ s) → last_assignment s k asg = None.
Proof.
  intros H. unfold last_assignment.
  replace (omap _ asg) with (@nil string); [done|].
  induction asg as [|a asg IH]; simpl; [done|].
  rewrite decide_False.
  - apply IH. intros b Hb. apply H. by right.
  - intros [Ha _]. by apply (H a); [left|].
Qed.

Lemma parser_inv_new : parser_inv MyParser_new [] [].
Proof.
  split_and!; simpl.
  - intros s. rewrite lookup_empty, elem_of_nil. split; [by intros []|tauto].
  - intros a Ha. by apply elem_of_nil in Ha.
  - intros s sect k. by rewrite lookup_empty.
  - intros k. by rewrite lookup_empty.
Qed.

Lemma parser_inv_header w cfg names asg n :
  parser_inv cfg names asg →
  parser_inv (read_header w cfg n) (names ++ [n]) asg.
Proof.
  intros (Hdom & Hnames & Hsect & Hdef). unfold read_header.
  destruct (decide (is_Some (_sections cfg !! n))) as [Hn|Hn].
  { apply Hdom in Hn as [Hn1 Hn2]. split_and!; [|set_solver|done..].
    intros s. rewrite Hdom. set_solver. }
  destruct (String.eqb_spec n DEFAULTSECT) as [->|Hne].
  { split_and!; [|set_solver|done..]. intros s. rewrite Hdom. set_solver. }
  assert (n ∉ names) as Hfresh.
  { intros Hin. apply Hn, Hdom. done. }
  split_and!; simpl.
  - intros s. rewrite lookup_insert_is_Some, Hdom.
    destruct (decide (n = s)) as [->|]; set_solver.
  - set_solver.
  - intros s sect k. destruct (decide (s = n)) as [->|Hs].
    + rewrite lookup_insert_eq. intros [= <-] Hk.
      rewrite last_assignment_none.
      * destruct (name_key w); [by rewrite lookup_singleton_ne|done].
      * intros a Ha%Hnames Heq. by rewrite Heq in Ha.
    + rewrite lookup_insert_ne by done. apply Hsect.
  - done.
Qed.

Lemma parser_inv_option cfg names asg n opt :
  parser_inv cfg names asg → n ∈ names →
  parser_inv (read_option n cfg opt) names (asg ++ [(n, opt.1, opt.2)]).
Proof.
  intros (Hdom & Hnames & Hsect & Hdef) Hn. unfold read_option.
  destruct (decide (is_Some (_sections cfg !! n))) as [Hin|Hin].
  - pose proof Hin as [_ Hne]%Hdom. split_and!; simpl.
    + intros s. rewrite <-Hdom. destruct (decide (s = n)) as [->|Hs].
      * rewrite lookup_alter_eq. by rewrite fmap_is_Some.
      * by rewrite lookup_alter_ne.
    + intros a [Ha| ->%list_elem_of_singleton]%elem_of_app; [by apply Hnames|done].
    + intros s sect k Hs Hk. rewrite last_assignment_snoc. simpl.
      destruct (decide (s = n)) as [->|Hsn].
      * rewrite lookup_alter_eq in Hs.
        destruct (_sections cfg !! n) as [old|] eqn:Hold; [|done].
        injection Hs as <-. case_decide as Hd.
        -- destruct Hd as [_ ->]. by rewrite lookup_insert_eq.
        -- rewrite lookup_insert_ne by naive_solver. by eapply Hsect.
      * rewrite lookup_alter_ne in Hs by done.
        rewrite decide_False by naive_solver. by eapply Hsect.
    + intros k. rewrite last_assignment_snoc. simpl.
      rewrite decide_False by naive_solver. apply Hdef.
  - assert (n = DEFAULTSECT) as ->.
    { destruct (decide (n = DEFAULTSECT)); [done|]. exfalso. by apply Hin, Hdom. }
    split_and!; simpl.
    + done.
    + intros a [Ha| ->%list_elem_of_singleton]%elem_of_app; [by apply Hnames|done].
    + intros s sect k Hs Hk. rewrite last_assignment_snoc. simpl.
      rewrite decide_False; [by eapply Hsect|].
      intros [<- _]. apply Hin. by rewrite Hs.
    + intros k. rewrite last_assignment_snoc. simpl.
      destruct (decide (opt.1 = k)) as [->|Hk].
      * rewrite lookup_insert_eq. by rewrite decide_True.
      * rewrite lookup_insert_ne by done. rewrite decide_False by naive_solver.
        apply Hdef.
Qed.

Lemma parser_inv_options n names opts : ∀ cfg asg,
  parser_inv cfg names asg → n ∈ names →
  parser_inv (foldl (read_option n) cfg opts) names
    (asg ++ ((λ opt : string * string, (n, opt.1, opt.2)) <$> opts)).
Proof.
  induction opts as [|opt opts IH]; intros cfg asg Hinv Hn; simpl.
  - by rewrite app_nil_r.
  - rewrite cons_middle, app_assoc. apply IH; [|done].
    by apply parser_inv_option.
Qed.

Lemma parser_inv_file w f : ∀ cfg names asg,
  parser_inv cfg names asg →
  parser_inv (foldl (read_section w) cfg f)
    (names ++ section_names f) (asg ++ assignments f).
Proof.
  unfold section_names.
  induction f as [|[n opts] f IH]; intros cfg names asg Hinv; simpl.
  - by rewrite !app_nil_r.
  - rewrite (cons_middle n), !app_assoc. apply IH.
    unfold read_section. simpl. apply parser_inv_options; [|set_solver].
    by apply parser_inv_header.
Qed.

Lemma read_all_parsed w ps files : ∀ cfg,
  Forall2 (λ p f, ini_parse w p = Ok f) ps files →
  for_each (MyParser_read w) cfg ps
  = Ok (foldl (read_section w) cfg (concat files)).
Proof.
  intros cfg H. revert cfg.
  induction H as [|p f ps files Hp _ IH]; intros cfg; simpl; [done|].
  unfold MyParser_read at 1. rewrite Hp. cbn [bind].
  by rewrite IH, foldl_app.
Qed.

Lemma alter_fold_lookup (g : gmap string string → gmap string string)
    (d0 m : gmap string (gmap string string)) s :
  map_fold (λ key _ (d__ : gmap string (gmap string string)),
    alter g key d__) d0 m !! s =
  match m !! s with
  | Some _ => g <$> d0 !! s
  | None => d0 !! s
  end.
Proof.
  revert s.
  apply (map_fold_weak_ind (λ acc (m : gmap string (gmap string string)),
    ∀ s, acc !! s = match m !! s with
                    | Some _ => g <$> d0 !! s
                    | None => d0 !! s
                    end)).
  - intros s. by rewrite lookup_empty.
  - intros i x m' acc Hi IH s. destruct (decide (s = i)) as [->|Hs].
    + rewrite lookup_alter_eq, lookup_insert_eq, IH. by rewrite Hi.
    + rewrite lookup_alter_ne, lookup_insert_ne by done. apply IH.
Qed.

Lemma as_dict_lookup self s :
  as_dict self !! s =
  (λ sect, delete "__name__" (sect ∪ _defaults self)) <$> _sections self !! s.
Proof.
  unfold as_dict. rewrite alter_fold_lookup.
  by destruct (_sections self !! s).
Qed.

(** C6: in an INI load every candidate file is read into the same parser,
    and the dictionary returned holds one entry for every section header
    read other than the default one. In the entry of a section, an option
    has the value of its last assignment under that header, over all the
    files in search order; an option the section never assigns has the
    value of its last assignment under the default header; ['__name__'] is
    no key of any section; and every value is a string. *)
Theorem C6_ini_layers w self filename files :
  (splitext filename).2 ∈ [".cfg"; ".ini"] →
  Forall2 (λ p f, ini_parse w p = Ok f)
    (config_search_paths w filename (paths self) (Some true)) files →
  ∃ D : gmap string (gmap string string),
    ConfigFinder_call w self filename = Ok (Some (ini_value D)) ∧
    (∀ s, is_Some (D !! s) ↔
          s ∈ section_names (concat files) ∧ s ≠ DEFAULTSECT) ∧
    ∀ s sect, D !! s = Some sect →
      sect !! "__name__" = None ∧
      ∀ k, k ≠ "__name__" →
        sect !! k =
        match last_assignment s k (assignments (concat files)) with
        | Some v => Some v
        | None => last_assignment DEFAULTSECT k (assignments (concat files))
        end.
Proof.
  intros Hext Hfiles. rewrite call_ini by done. unfold read_all.
  rewrite (read_all_parsed _ _ _ _ Hfiles). cbn [bind].
  pose proof (parser_inv_file w (concat files) _ _ _ parser_inv_new)
    as (Hdom & _ & Hsect & Hdef).
  rewrite !app_nil_l in *.
  set (cfg := foldl (read_section w) MyParser_new (concat files)) in *.
  exists (as_dict cfg). split_and!; [done| |].
  - intros s. rewrite as_dict_lookup, fmap_is_Some. apply Hdom.
  - intros s sect. rewrite as_dict_lookup.
    destruct (_sections cfg !! s) as [raw|] eqn:Hraw; [|done].
    intros [= <-]. split; [apply lookup_delete_eq|].
    intros k Hk. rewrite lookup_delete_ne by done.
    rewrite lookup_union. rewrite (Hsect s raw k Hraw Hk), Hdef.
    by destruct (last_assignment s k _), (last_assignment DEFAULTSECT k _).
Qed.

Lemma C6_witness :
  ∃ D : gmap string (gmap string string),
    ConfigFinder_call (world_two_ini true) tmp_and_cwd "conf.ini"
      = Ok (Some (ini_value D)) ∧
    (∀ s, is_Some (D !! s) ↔
          s ∈ section_names (concat [ini_tmp; ini_cwd]) ∧ s ≠ DEFAULTSECT) ∧
    ∀ s sect, D !! s = Some sect →
      sect !! "__name__" = None ∧
      ∀ k, k ≠ "__name__" →
        sect !! k =
        match last_assignment s k (assignments (concat [ini_tmp; ini_cwd])) with
        | Some v => Some v
        | None =>
            last_assignment DEFAULTSECT k (assignments (concat [ini_tmp; ini_cwd]))
        end.
Proof.
  apply (C6_ini_layers (world_two_ini true) tmp_and_cwd "conf.ini"
           [ini_tmp; ini_cwd]).
  - solve_ext.
  - repeat constructor.
Defined.

(** The two files of [test_ini], and the same with a default section in
    the first: section [b] ends as [{c: '3', d: '5'}], with the defaults it
    does not assign, whether or not the parser keeps ['__name__']. *)
Example test_ini nk :
  ConfigFinder_call (world_test_ini nk) tmp_and_cwd "conf.ini"
  = Ok (Some ini_test_merged).
Proof. destruct nk; vm_compute; reflexivity. Qed.

Example test_ini_defaults nk :
  ConfigFinder_call (world_two_ini nk) tmp_and_cwd "conf.ini"
  = Ok (Some ini_merged).
Proof. destruct nk; vm_compute; reflexivity. Qed.

(** * Further properties of the update *)

Lemma slot_Ok_mapping dv v (x : option value) :
  isinstance_Mapping v = true →
  slot dv (Some v) = Ok x →
  ∃ r, recursive_dict_update (default (VMap ∅) dv) v = Ok r ∧ x = Some r.
Proof.
  intros Hv. unfold slot. rewrite Hv.
  destruct (recursive_dict_update _ v) as [r|]; [|done].
  intros [= <-]. by exists r.
Qed.

Lemma slot_scalar dv v :
  isinstance_Mapping v = false → slot dv (Some v) = Ok (Some v).
Proof. intros Hv. unfold slot. by rewrite Hv. Qed.

Lemma rdu_idem u : ∀ d r,
  recursive_dict_update d u = Ok r → recursive_dict_update r u = Ok r.
Proof.
  induction u as [v Hv|um IH] using value_map_ind; intros d r Hr.
  { by rewrite rdu_not_mapping in Hr. }
  destruct (isinstance_Mapping d) eqn:Hd.
  - destruct d as [| |dm]; [done..|].
    apply rdu_Ok_slots in Hr as (rm & -> & Hrm).
    apply rdu_slots_Ok. intros k. specialize (Hrm k).
    destruct (um !! k) as [v|] eqn:Hk; [|done].
    destruct (isinstance_Mapping v) eqn:Hv.
    + apply slot_Ok_mapping in Hrm as (x & Hx & ->); [|done].
      unfold slot. rewrite Hv. cbn [default from_option id].
      by rewrite (IH k v Hk _ _ Hx).
    + rewrite slot_scalar in Hrm by done. injection Hrm as <-.
      by apply slot_scalar.
  - apply rdu_Ok_kind in Hr as [_ Hr]. destruct (Hr Hd) as [-> [= ->]].
    apply rdu_empty_overlay.
Qed.

(** X1: updating an empty dictionary with a mapping returns that mapping,
    at every depth, and never raises. *)
Theorem X1_update_of_empty u :
  isinstance_Mapping u = true → recursive_dict_update (VMap ∅) u = Ok u.
Proof. apply rdu_empty_base. Qed.

Lemma X1_witness : recursive_dict_update (VMap ∅) dict1 = Ok dict1.
Proof. apply X1_update_of_empty. reflexivity. Defined.



Lemma rdu_flat_overlay (dm um : gmap string value) :
  (∀ k v, um !! k = Some v → isinstance_Mapping v = false) →
  recursive_dict_update (VMap dm) (VMap um) = Ok (VMap (um ∪ dm)).
Proof.
  intros Hflat. apply rdu_slots_Ok. intros k. rewrite lookup_union.
  destruct (um !! k) as [v|] eqn:Hk.
  - rewrite slot_scalar by by eapply Hflat. by destruct (dm !! k).
  - by destruct (dm !! k).
Qed.

(** X3: with an overlay that holds no mapping the update is [dict.update]:
    it never raises and returns the overlay laid over the base. *)
Theorem X3_flat_overlay (dm um : gmap string value) :
  (∀ k v, um !! k = Some v → isinstance_Mapping v = false) →
  recursive_dict_update (VMap dm) (VMap um) = Ok (VMap (um ∪ dm)).
Proof. apply rdu_flat_overlay. Qed.

Lemma X3_witness :
  recursive_dict_update dict1 (VMap {[ "a" := VInt 2; "b" := VInt 0 ]})
  = Ok (VMap ({[ "a" := VInt 2; "b" := VInt 0 ]}
              ∪ {[ "a" := VInt 1;
                   "b" := VMap {[ "c" := VInt 3; "d" := VInt 4 ]} ]})).
Proof.
  apply (X3_flat_overlay
    {[ "a" := VInt 1; "b" := VMap {[ "c" := VInt 3; "d" := VInt 4 ]} ]}
    {[ "a" := VInt 2; "b" := VInt 0 ]}).
  intros k v Hk.
  destruct (decide (k = "a")) as [->|Ha]; [by injection Hk as <-|].
  destruct (decide (k = "b")) as [->|Hb]; [by injection Hk as <-|].
  by rewrite lookup_insert_ne, lookup_singleton_ne in Hk.
Defined.

Lemma rdu_dom dm um rm :
  recursive_dict_update (VMap dm) (VMap um) = Ok (VMap rm) →
  dom rm = dom dm ∪ dom um.
Proof.
  intros (rm' & [= <-] & Hrm)%rdu_Ok_slots.
  apply set_eq. intros k. rewrite elem_of_union, !elem_of_dom.
  specialize (Hrm k). destruct (um !! k) as [v|] eqn:Hk.
  - destruct (isinstance_Mapping v) eqn:Hv.
    + apply slot_Ok_mapping in Hrm as (x & _ & ->); [|done].
      split; [by right|by intros _].
    + rewrite slot_scalar in Hrm by done. injection Hrm as <-.
      split; [by right|by intros _].
  - simpl in Hrm. injection Hrm as <-. split; [by left|].
    by intros [?|[? [=]]].
Qed.

(** X4: the keys of the dictionary the update returns are the keys of
    the base and the keys of the overlay: no key is dropped, none is
    invented. *)
Theorem X4_keys dm um r :
  recursive_dict_update (VMap dm) (VMap um) = Ok r →
  ∃ rm, r = VMap rm ∧ dom rm = dom dm ∪ dom um.
Proof.
  intros Hr. pose proof Hr as (rm & -> & _)%rdu_Ok_slots.
  exists rm. split; [done|]. by apply rdu_dom.
Qed.

Lemma X4_witness :
  ∃ rm, dict_merged = VMap rm ∧
    dom rm = dom ({[ "a" := VInt 1;
                     "b" := VMap {[ "c" := VInt 3; "d" := VInt 4 ]} ]}
                  : gmap string value)
             ∪ dom ({[ "a" := VInt 2; "b" := VMap {[ "d" := VInt 5 ]} ]}
                    : gmap string value).
Proof. apply X4_keys. vm_compute. reflexivity. Defined.

(** X5: a value of the overlay that is not a mapping replaces whatever
    the base holds under its key, a mapping included. *)
Theorem X5_scalar_overwrites dm um k v r :
  um !! k = Some v → isinstance_Mapping v = false →
  recursive_dict_update (VMap dm) (VMap um) = Ok r →
  ∃ rm, r = VMap rm ∧ rm !! k = Some v.
Proof.
  intros Hk Hv (rm & -> & Hrm)%rdu_Ok_slots. exists rm. split; [done|].
  specialize (Hrm k). rewrite Hk, slot_scalar in Hrm by done. congruence.
Qed.

Lemma X5_witness :
  ∃ rm, VMap {[ "a" := VInt 1; "b" := VInt 0 ]} = VMap rm ∧
        rm !! "b" = Some (VInt 0).
Proof.
  apply (X5_scalar_overwrites
    {[ "a" := VInt 1; "b" := VMap {[ "c" := VInt 3; "d" := VInt 4 ]} ]}
    {[ "b" := VInt 0 ]} "b" (VInt 0)).
  - reflexivity.
  - reflexivity.
  - vm_compute. reflexivity.
Defined.



(** X7: with a base that is not a mapping the update returns for the
    empty overlay only, and then returns the base as it is. *)
Theorem X7_scalar_base d u r :
  isinstance_Mapping d = false →
  recursive_dict_update d u = Ok r ↔ u = VMap ∅ ∧ r = d.
Proof.
  intros Hd. split.
  - intros [_ Hr]%rdu_Ok_kind. by destruct (Hr Hd).
  - intros [-> ->]. apply rdu_empty_overlay.
Qed.

Lemma X7_witness :
  recursive_dict_update (VInt 1) (VMap ∅) = Ok (VInt 1)
  ↔ VMap ∅ = VMap ∅ ∧ VInt 1 = VInt 1.
Proof. apply X7_scalar_base. reflexivity. Defined.


(** * Further properties of the search *)

Lemma candidates_app filename d1 d2 :
  candidates filename (d1 ++ d2)
  = (candidates filename d1 ++ candidates filename d2)%list.
Proof. unfold candidates. by rewrite omap_app, fmap_app. Qed.

Lemma config_search_paths_subset w filename search_dirs kwargs p :
  p ∈ config_search_paths w filename search_dirs kwargs →
  p ∈ candidates filename search_dirs.
Proof.
  unfold config_search_paths. rewrite app_nil_l, flat_map_candidates.
  destruct (default true kwargs); [|done].
  rewrite !list_elem_of_In, filter_In. tauto.
Qed.

Lemma config_search_paths_default w filename search_dirs :
  config_search_paths w filename search_dirs None
  = config_search_paths w filename search_dirs (Some true).
Proof. reflexivity. Qed.

Lemma config_search_paths_app w filename d1 d2 kwargs :
  config_search_paths w filename (d1 ++ d2) kwargs
  = (config_search_paths w filename d1 kwargs
     ++ config_search_paths w filename d2 kwargs)%list.
Proof.
  unfold config_search_paths. rewrite !app_nil_l, !flat_map_candidates.
  rewrite candidates_app.
  destruct (default true kwargs); [apply List.filter_app|done].
Qed.

(** X9: the search over a search path in two parts is the search over
    the first part followed by the search over the second, with and
    without the existence check. *)
Theorem X9_search_app w filename d1 d2 kwargs :
  config_search_paths w filename (d1 ++ d2) kwargs
  = (config_search_paths w filename d1 kwargs
     ++ config_search_paths w filename d2 kwargs)%list.
Proof. apply config_search_paths_app. Qed.

(** X10: for a file name that starts with a slash [os.path.join] drops
    the directory, so every candidate is the file name itself, once for
    every directory of the search path that is not [None]. *)
Theorem X10_absolute_filename w filename search_dirs :
  startswith_sep filename = true →
  config_search_paths w filename search_dirs (Some false)
  = replicate (length (omap id search_dirs)) filename.
Proof.
  intros Habs. rewrite config_search_paths_unchecked. unfold candidates.
  induction (omap id search_dirs) as [|d l IH]; [done|].
  rewrite fmap_cons. cbn [length replicate]. rewrite IH. f_equal.
  unfold path_join. by rewrite Habs.
Qed.

Lemma X10_witness :
  config_search_paths world_no_files "/etc/conf.cfg"
    [Some "/tmp"; None; Some "."] (Some false)
  = replicate (length (omap id [Some "/tmp"; None; Some "."])) "/etc/conf.cfg".
Proof. apply X10_absolute_filename. reflexivity. Defined.

(** X11: for a file name that does not start with a slash, every path
    the search returns is a directory of the search path followed by the
    file name, with a slash between them unless the directory is empty or
    ends with one. *)
Theorem X11_relative_filename w filename search_dirs kwargs p :
  startswith_sep filename = false →
  p ∈ config_search_paths w filename search_dirs kwargs →
  ∃ dir, Some dir ∈ search_dirs ∧
    p = (if String.eqb dir "" || endswith_sep dir
         then dir +:+ filename else dir +:+ "/" +:+ filename).
Proof.
  intros Hrel Hp%config_search_paths_subset. unfold candidates in Hp.
  apply list_elem_of_fmap in Hp as (dir & -> & Hdir).
  apply list_elem_of_omap in Hdir as (o & Ho & Hdir). simpl in Hdir.
  subst o. exists dir. split; [done|]. unfold path_join. by rewrite Hrel.
Qed.

Lemma X11_witness :
  ∃ dir, Some dir ∈ [Some "/tmp"; Some "."] ∧
    "/tmp/conf.yaml" = (if String.eqb dir "" || endswith_sep dir
                        then dir +:+ "conf.yaml"
                        else dir +:+ "/" +:+ "conf.yaml").
Proof.
  apply (X11_relative_filename world_two_yaml "conf.yaml"
           [Some "/tmp"; Some "."] (Some true) "/tmp/conf.yaml").
  - reflexivity.
  - vm_compute. apply list_elem_of_here.
Defined.

(** * Further properties of [as_dict] *)

(** X12: whatever the state of the parser, [as_dict] returns one
    dictionary for every section of the parser and nothing else: the
    defaults give no entry of their own. *)
Theorem X12_as_dict_sections self :
  dom (as_dict self) = dom (_sections self).
Proof.
  apply set_eq. intros s. rewrite !elem_of_dom, as_dict_lookup.
  apply fmap_is_Some.
Qed.

(** X13: whatever the state of the parser, the dictionary [as_dict]
    returns for a section has no key ['__name__'], and under every other
    key the value of the section when it has one and the value of the
    defaults otherwise. *)
Theorem X13_as_dict_values self s d :
  as_dict self !! s = Some d →
  ∃ sect, _sections self !! s = Some sect ∧
    d !! "__name__" = None ∧
    ∀ k, k ≠ "__name__" →
      d !! k = match sect !! k with
               | Some v => Some v
               | None => _defaults self !! k
               end.
Proof.
  rewrite as_dict_lookup.
  destruct (_sections self !! s) as [sect|]; [|done].
  intros [= <-]. exists sect. split_and!; [done|apply lookup_delete_eq|].
  intros k Hk. rewrite lookup_delete_ne, lookup_union by done.
  by destruct (sect !! k), (_defaults self !! k).
Qed.

Lemma X13_witness :
  ∃ sect,
    _sections sample_parser !! "b" = Some sect ∧
    ({[ "c" := "3"; "z" := "0" ]} : gmap string string) !! "__name__" = None ∧
    ∀ k, k ≠ "__name__" →
      ({[ "c" := "3"; "z" := "0" ]} : gmap string string) !! k =
      match sect !! k with
      | Some v => Some v
      | None => _defaults sample_parser !! k
      end.
Proof.
  apply (X13_as_dict_values sample_parser "b" {[ "c" := "3"; "z" := "0" ]}).
  vm_compute. reflexivity.
Defined.

(** * Further properties of the loader *)

Lemma call_unrecognized w self filename :
  (splitext filename).2 ∉ [".cfg"; ".ini"; ".yaml"; ".yml"] →
  ConfigFinder_call w self filename = Ok None.
Proof.
  intros Hext. unfold ConfigFinder_call.
  rewrite !bool_decide_eq_false_2; [done|..];
    intros H; apply Hext; rewrite !elem_of_cons in H; rewrite !elem_of_cons;
    tauto.
Qed.

Lemma recognized_split ext :
  ext ∈ [".cfg"; ".ini"; ".yaml"; ".yml"] →
  ext ∈ [".cfg"; ".ini"] ∨ ext ∈ [".yaml"; ".yml"].
Proof. rewrite !elem_of_cons. tauto. Qed.

Lemma merge_all_kind w l : ∀ cfg r,
  merge_all w l cfg = Ok r →
  isinstance_Mapping r = isinstance_Mapping cfg.
Proof.
  induction l as [|p l IH]; intros cfg r.
  - by intros [= ->].
  - rewrite merge_all_cons. destruct (yaml_load w p) as [u|]; [|done].
    cbn [bind].
    destruct (recursive_dict_update cfg u) as [cfg'|] eqn:Hu; [|done].
    cbn [bind]. intros Hr%IH. apply rdu_Ok_kind in Hu as [Hu _]. congruence.
Qed.

(** X14: when the search finds one YAML file and it holds a mapping, the
    loader returns that mapping as it was parsed. *)
Theorem X14_single_yaml w self filename p u :
  (splitext filename).2 ∈ [".yaml"; ".yml"] →
  config_search_paths w filename (paths self) (Some true) = [p] →
  yaml_load w p = Ok u → isinstance_Mapping u = true →
  ConfigFinder_call w self filename = Ok (Some u).
Proof.
  intros Hext Hfiles Hp Hu. rewrite call_yaml, Hfiles by done.
  rewrite merge_all_cons, Hp. cbn [bind].
  by rewrite rdu_empty_base.
Qed.

Lemma X14_witness :
  ConfigFinder_call world_two_yaml {| paths := [Some "/tmp"; None] |}
    "conf.yaml" = Ok (Some dict1).
Proof.
  apply (X14_single_yaml world_two_yaml _ "conf.yaml" "/tmp/conf.yaml").
  - solve_ext.
  - reflexivity.
  - reflexivity.
  - reflexivity.
Defined.

(** X15: for a file name with a recognized extension the loader, when it
    returns, returns a dictionary and never [None]. *)
Theorem X15_recognized_returns_dict w self filename o :
  (splitext filename).2 ∈ [".cfg"; ".ini"; ".yaml"; ".yml"] →
  ConfigFinder_call w self filename = Ok o →
  ∃ m, o = Some (VMap m).
Proof.
  intros [Hext|Hext]%recognized_split.
  - rewrite call_ini by done. destruct (read_all w _) as [cfg|]; [|done].
    intros [= <-]. by eexists.
  - rewrite call_yaml by done.
    destruct (merge_all w _ _) as [cfg|] eqn:Hcfg; [|done].
    intros [= <-]. apply merge_all_kind in Hcfg.
    destruct cfg as [| |m]; [done..|]. by exists m.
Qed.

Lemma X15_witness : ∃ m, Some dict_merged = Some (VMap m).
Proof.
  apply (X15_recognized_returns_dict world_two_yaml tmp_and_cwd "conf.yaml").
  - solve_ext.
  - vm_compute. reflexivity.
Defined.

(** X16: a YAML candidate whose document is not a mapping (a scalar, a
    sequence, or nothing) makes the load raise [AttributeError], when the
    candidates before it were merged. *)
Theorem X16_document_not_mapping w self filename before p after cfg u :
  (splitext filename).2 ∈ [".yaml"; ".yml"] →
  config_search_paths w filename (paths self) (Some true)
    = (before ++ p :: after)%list →
  merge_all w before (VMap ∅) = Ok cfg →
  yaml_load w p = Ok u → isinstance_Mapping u = false →
  ConfigFinder_call w self filename = Raise AttributeError.
Proof.
  intros Hext Hfiles Hbefore Hp Hu. rewrite call_yaml, Hfiles by done.
  rewrite merge_all_app, Hbefore. cbn [bind].
  rewrite merge_all_cons, Hp. cbn [bind]. by rewrite rdu_not_mapping.
Qed.

(** X17: an exception of [open] or [yaml.load] on a candidate leaves the
    loader as it is, when the candidates before it were merged: the files
    after it are not read. *)
Theorem X17_yaml_error_propagates w self filename before p after cfg e :
  (splitext filename).2 ∈ [".yaml"; ".yml"] →
  config_search_paths w filename (paths self) (Some true)
    = (before ++ p :: after)%list →
  merge_all w before (VMap ∅) = Ok cfg →
  yaml_load w p = Raise e →
  ConfigFinder_call w self filename = Raise e.
Proof.
  intros Hext Hfiles Hbefore Hp. rewrite call_yaml, Hfiles by done.
  rewrite merge_all_app, Hbefore. cbn [bind].
  by rewrite merge_all_cons, Hp.
Qed.

(** X18: an exception of the INI parser on a candidate leaves the loader
    as it is, when the candidates before it were parsed: nothing is
    returned of what was read so far. *)
Theorem X18_ini_error_propagates w self filename before files p after e :
  (splitext filename).2 ∈ [".cfg"; ".ini"] →
  config_search_paths w filename (paths self) (Some true)
    = (before ++ p :: after)%list →
  Forall2 (λ q f, ini_parse w q = Ok f) before files →
  ini_parse w p = Raise e →
  ConfigFinder_call w self filename = Raise e.
Proof.
  intros Hext Hfiles Hbefore Hp. rewrite call_ini, Hfiles by done.
  unfold read_all. rewrite for_each_app.
  rewrite (read_all_parsed _ _ _ _ Hbefore). cbn [bind for_each].
  unfold MyParser_read at 1. by rewrite Hp.
Qed.

Lemma X16_witness :
  ConfigFinder_call world_seq_yaml tmp_and_cwd "conf.yaml"
  = Raise AttributeError.
Proof.
  apply (X16_document_not_mapping world_seq_yaml tmp_and_cwd "conf.yaml"
           [] "/tmp/conf.yaml" [] (VMap ∅) (VSeq [VInt 1])).
  - solve_ext.
  - reflexivity.
  - reflexivity.
  - reflexivity.
  - reflexivity.
Defined.

Lemma X17_witness :
  ConfigFinder_call world_broken tmp_and_cwd "conf.yaml" = Raise YAMLError.
Proof.
  apply (X17_yaml_error_propagates world_broken tmp_and_cwd "conf.yaml"
           [] "/tmp/conf.yaml" [] (VMap ∅)).
  - solve_ext.
  - reflexivity.
  - reflexivity.
  - reflexivity.
Defined.

Lemma X18_witness :
  ConfigFinder_call world_broken tmp_and_cwd "conf.ini" = Raise ParsingError.
Proof.
  apply (X18_ini_error_propagates world_broken tmp_and_cwd "conf.ini"
           [] [] "/tmp/conf.ini" []).
  - solve_ext.
  - reflexivity.
  - constructor.
  - reflexivity.
Defined.

Lemma merge_all_twice w p l cfg :
  merge_all w (p :: p :: l) cfg = merge_all w (p :: l) cfg.
Proof.
  rewrite !merge_all_cons. destruct (yaml_load w p) as [u|] eqn:Hp; [|done].
  cbn [bind]. destruct (recursive_dict_update cfg u) as [r|] eqn:Hr; [|done].
  cbn [bind]. rewrite merge_all_cons, Hp. cbn [bind].
  by rewrite (rdu_idem _ _ _ Hr).
Qed.

(** X19: naming a directory twice in a row in the search path changes
    nothing in a YAML load, whether it returns or raises. *)
Theorem X19_repeated_directory w filename l1 dir l2 :
  (splitext filename).2 ∈ [".yaml"; ".yml"] →
  ConfigFinder_call w {| paths := l1 ++ Some dir :: Some dir :: l2 |} filename
  = ConfigFinder_call w {| paths := l1 ++ Some dir :: l2 |} filename.
Proof.
  intros Hext. rewrite !call_yaml by done. cbn [paths].
  rewrite !config_search_paths_app, !merge_all_app.
  destruct (merge_all w _ (VMap ∅)) as [cfg|]; [|done]. cbn [bind].
  change (Some dir :: Some dir :: l2)
    with ([Some dir] ++ [Some dir] ++ l2)%list.
  change (Some dir :: l2) with ([Some dir] ++ l2)%list.
  rewrite !config_search_paths_app.
  assert (config_search_paths w filename [Some dir] (Some true)
          = if isfile w (path_join dir filename)
            then [path_join dir filename] else []) as ->.
  { unfold config_search_paths. simpl. by destruct (isfile w _). }
  destruct (isfile w (path_join dir filename)); [|done].
  cbn [app]. by rewrite merge_all_twice.
Qed.

Lemma X19_witness :
  ConfigFinder_call world_two_yaml
    {| paths := [Some "/tmp"] ++ Some "." :: Some "." :: [] |} "conf.yaml"
  = ConfigFinder_call world_two_yaml
    {| paths := [Some "/tmp"] ++ Some "." :: [] |} "conf.yaml".
Proof. apply X19_repeated_directory. solve_ext. Defined.

Lemma merge_all_dom w l : ∀ cm rm,
  merge_all w l (VMap cm) = Ok (VMap rm) →
  dom cm ⊆ dom rm ∧
  ∀ p um, p ∈ l → yaml_load w p = Ok (VMap um) → dom um ⊆ dom rm.
Proof.
  induction l as [|q l IH]; intros cm rm.
  - intros [= ->]. split; [done|]. intros p um Hp. by apply elem_of_nil in Hp.
  - rewrite merge_all_cons. destruct (yaml_load w q) as [u|] eqn:Hq; [|done].
    cbn [bind].
    destruct (recursive_dict_update (VMap cm) u) as [cfg'|] eqn:Hu; [|done].
    cbn [bind]. intros Hr.
    destruct u as [| |um0]; [done..|].
    pose proof Hu as (cm' & -> & _)%rdu_Ok_slots.
    apply rdu_dom in Hu. destruct (IH _ _ Hr) as [Hsub Hall].
    split; [set_solver|].
    intros p um [->|Hp]%elem_of_cons Hload; [|by eapply Hall].
    rewrite Hq in Hload. injection Hload as ->. set_solver.
Qed.

(** X20: a YAML load never drops a top-level key: every key of the
    mapping of every candidate is a key of the dictionary returned. *)
Theorem X20_keys_kept w self filename p um r :
  (splitext filename).2 ∈ [".yaml"; ".yml"] →
  p ∈ config_search_paths w filename (paths self) (Some true) →
  yaml_load w p = Ok (VMap um) →
  ConfigFinder_call w self filename = Ok (Some r) →
  ∃ rm, r = VMap rm ∧ dom um ⊆ dom rm.
Proof.
  intros Hext Hp Hload. rewrite call_yaml by done.
  destruct (merge_all w _ _) as [cfg|] eqn:Hcfg; [|done].
  intros [= ->]. pose proof (merge_all_kind _ _ _ _ Hcfg) as Hk.
  destruct r as [| |rm]; [done..|]. exists rm. split; [done|].
  by eapply (merge_all_dom _ _ _ _ Hcfg).
Qed.

Lemma X20_witness :
  ∃ rm, dict_merged = VMap rm ∧
    dom ({[ "a" := VInt 2; "b" := VMap {[ "d" := VInt 5 ]} ]}
         : gmap string value) ⊆ dom rm.
Proof.
  apply (X20_keys_kept world_two_yaml tmp_and_cwd "conf.yaml" "./conf.yaml").
  - solve_ext.
  - vm_compute. apply list_elem_of_further, list_elem_of_here.
  - reflexivity.
  - vm_compute. reflexivity.
Defined.

(** X21: in a YAML load a value of the last candidate that is not a
    mapping is the value returned under its key, whatever the candidates
    before it hold there. *)
Theorem X21_last_layer_wins w self filename before p um k v r :
  (splitext filename).2 ∈ [".yaml"; ".yml"] →
  config_search_paths w filename (paths self) (Some true)
    = (before ++ [p])%list →
  yaml_load w p = Ok (VMap um) →
  um !! k = Some v → isinstance_Mapping v = false →
  ConfigFinder_call w self filename = Ok (Some r) →
  ∃ rm, r = VMap rm ∧ rm !! k = Some v.
Proof.
  intros Hext Hfiles Hload Hk Hv. rewrite call_yaml, Hfiles by done.
  rewrite merge_all_app.
  destruct (merge_all w before (VMap ∅)) as [cfg|] eqn:Hcfg; [|done].
  cbn [bind]. rewrite merge_all_cons, Hload. cbn [bind].
  apply merge_all_kind in Hcfg. destruct cfg as [| |cm]; [done..|].
  destruct (recursive_dict_update (VMap cm) (VMap um)) as [x|] eqn:Hx; [|done].
  cbn [bind merge_all for_each]. intros [= ->].
  apply rdu_Ok_slots in Hx as (rm & -> & Hrm). exists rm. split; [done|].
  specialize (Hrm k). rewrite Hk, slot_scalar in Hrm by done. congruence.
Qed.

Lemma X21_witness :
  ∃ rm, dict_merged = VMap rm ∧ rm !! "a" = Some (VInt 2).
Proof.
  apply (X21_last_layer_wins world_two_yaml tmp_and_cwd "conf.yaml"
           ["/tmp/conf.yaml"] "./conf.yaml"
           {[ "a" := VInt 2; "b" := VMap {[ "d" := VInt 5 ]} ]}).
  - solve_ext.
  - reflexivity.
  - reflexivity.
  - reflexivity.
  - reflexivity.
  - vm_compute. reflexivity.
Defined.

Lemma merge_all_flat w ps ms : ∀ cm,
  Forall2 (λ p (m : gmap string value),
    yaml_load w p = Ok (VMap m) ∧
    ∀ k v, m !! k = Some v → isinstance_Mapping v = false) ps ms →
  merge_all w ps (VMap cm)
  = Ok (VMap (foldl (λ acc m, m ∪ acc) cm ms)).
Proof.
  intros cm H. revert cm.
  induction H as [|p m ps ms [Hp Hm] _ IH]; intros cm; [done|].
  rewrite merge_all_cons, Hp. cbn [bind].
  rewrite rdu_flat_overlay by done. cbn [bind foldl]. apply IH.
Qed.

(** X22: when every candidate of a YAML load is a mapping without nested
    mappings, the load does not raise and returns the candidates laid
    over one another, each over the ones before it. *)
Theorem X22_flat_layers w self filename ms :
  (splitext filename).2 ∈ [".yaml"; ".yml"] →
  Forall2 (λ p (m : gmap string value),
    yaml_load w p = Ok (VMap m) ∧
    ∀ k v, m !! k = Some v → isinstance_Mapping v = false)
    (config_search_paths w filename (paths self) (Some true)) ms →
  ConfigFinder_call w self filename
  = Ok (Some (VMap (foldl (λ acc m, m ∪ acc) ∅ ms))).
Proof.
  intros Hext Hms. rewrite call_yaml by done.
  by rewrite (merge_all_flat _ _ _ _ Hms).
Qed.

Lemma X22_witness :
  ConfigFinder_call world_flat_yaml tmp_and_cwd "conf.yaml"
  = Ok (Some (VMap (foldl (λ acc m, m ∪ acc) ∅ [flat_tmp; flat_cwd]))).
Proof.
  apply (X22_flat_layers world_flat_yaml tmp_and_cwd "conf.yaml"
           [flat_tmp; flat_cwd]).
  - solve_ext.
  - constructor; [split; [reflexivity|]|].
    { change (map_Forall (λ _ v, isinstance_Mapping v = false) flat_tmp).
      apply map_Forall_insert_2; [reflexivity|].
      by apply map_Forall_singleton. }
    constructor; [split; [reflexivity|]|constructor].
    change (map_Forall (λ _ v, isinstance_Mapping v = false) flat_cwd).
    by apply map_Forall_singleton.
Defined.

(** X23: a file name whose last component has no dot has no extension,
    and the loader returns [None] for it. *)
Theorem X23_no_extension w self filename :
  (rfind "." filename ≤ rfind "/" filename)%Z →
  ConfigFinder_call w self filename = Ok None.
Proof.
  intros Hdot. apply call_unrecognized. unfold splitext.
  rewrite (proj2 (Z.ltb_ge _ _) Hdot). simpl.
  intros H. repeat (apply elem_of_cons in H as [H|H]; [discriminate H|]).
  by apply elem_of_nil in H.
Qed.

Lemma X23_witness :
  ConfigFinder_call world_two_yaml tmp_and_cwd "conf.d/yaml" = Ok None.
Proof. apply X23_no_extension. vm_compute. discriminate. Defined.
